(** * Tracy client timers: scaling arithmetic and clock selection

    A shallow embedding of [tracy/client/TracyTimer.hpp].

    The header computes on [int64_t].  Values are modelled as [Z]; every
    arithmetic operation returns the value a two's-complement machine
    produces (the exact result wrapped into the signed 64-bit range)
    together with a flag recording that the exact result did not fit,
    which is the situation C++ leaves undefined.  Division and remainder
    by zero, and of the least [int64_t] by [-1], have no value at all (the
    processor's divide error) and are a fault. *)

From Stdlib Require Import ZArith Bool List Lia.
Import ListNotations.

Local Open Scope Z_scope.

(** ** Signed 64-bit integers *)

Module Int64.

Definition modulus : Z := 2 ^ 64.
Definition half_modulus : Z := 2 ^ 63.
Definition min_signed : Z := - half_modulus.
Definition max_signed : Z := half_modulus - 1.

(** The values an [int64_t] holds. *)
Definition in_range (z : Z) : bool :=
  (min_signed <=? z) && (z <=? max_signed).

(** Two's-complement wrap-around of an exact result. *)
Definition wrap (z : Z) : Z :=
  (z + half_modulus) mod modulus - half_modulus.

(** Conversion of an [unsigned long long] to [int64_t], as in
    [const int64_t counter = detail::read_cpu_clock();]. *)
Definition of_unsigned (u : Z) : Z := wrap u.

End Int64.

(** ** Outcomes of integer code *)

Inductive fault : Set :=
| DivideByZero
| DivideOverflow.

Inductive outcome (A : Type) : Type :=
| Fault (e : fault)
| Value (v : A) (overflowed : bool).

Arguments Fault {A} e.
Arguments Value {A} v overflowed.

Definition ret {A} (a : A) : outcome A := Value a false.

Definition bind {A B} (m : outcome A) (k : A -> outcome B) : outcome B :=
  match m with
  | Fault e => Fault e
  | Value a o =>
      match k a with
      | Fault e => Fault e
      | Value b o' => Value b (o || o')
      end
  end.

Notation "x <- m ;; k" := (bind m (fun x => k))
  (at level 61, m at next level, right associativity).

(** The run produced a value and no operation overflowed. *)
Definition clean {A} (m : outcome A) : bool :=
  match m with
  | Value _ false => true
  | _ => false
  end.

(** The run reached a value (possibly after wrapping). *)
Definition value_of {A} (m : outcome A) : option A :=
  match m with
  | Value v _ => Some v
  | Fault _ => None
  end.

(** An exact result stored into an [int64_t]. *)
Definition fit (z : Z) : outcome Z :=
  Value (Int64.wrap z) (negb (Int64.in_range z)).

Definition add64 (a b : Z) : outcome Z := fit (a + b).

Definition mul64 (a b : Z) : outcome Z := fit (a * b).

(** C++ [/] truncates toward zero: [Z.quot].  A zero divisor, and the
    quotient [INT64_MIN / -1] that no [int64_t] holds, end the run. *)
Definition div64 (a b : Z) : outcome Z :=
  if b =? 0 then Fault DivideByZero
  else if (b =? -1) && (a =? Int64.min_signed) then Fault DivideOverflow
  else fit (Z.quot a b).

(** C++ [%] takes the sign of the dividend: [Z.rem].  The remainder always
    fits; it is undefined exactly when the quotient is. *)
Definition rem64 (a b : Z) : outcome Z :=
  if b =? 0 then Fault DivideByZero
  else if (b =? -1) && (a =? Int64.min_signed) then Fault DivideOverflow
  else Value (Z.rem a b) (negb (Int64.in_range (Z.quot a b))).

(** ** namespace tracy::timers::detail *)

(** [std::chrono::nanoseconds::period::den], i.e. [std::nano::den]. *)
Definition period_den : Z := 1000000000.

Definition clock_scale_generic (_freq _counter _period_den : Z) : outcome Z :=
  q <- div64 _counter _freq ;;
  whole <- mul64 q _period_den ;;
  r <- rem64 _counter _freq ;;
  m <- mul64 r _period_den ;;
  part <- div64 m _freq ;;
  add64 whole part.

Definition clock_scale_10MHz (_counter _period_den : Z) : outcome Z :=
  let _freq := 10000000 in
  clock_scale_generic _freq _counter _period_den.

Definition clock_scale_24MHz (_counter _period_den : Z) : outcome Z :=
  let _freq := 24000000 in
  clock_scale_generic _freq _counter _period_den.

(** ** Clock sources *)

(** [switch (_freq)] of [win32_performance_counter::qpc_scale_dispatch]. *)
Definition qpc_scale_dispatch (_freq _counter : Z) : outcome Z :=
  if _freq =? 10000000 then clock_scale_10MHz _counter period_den
  else if _freq =? 24000000 then clock_scale_24MHz _counter period_den
  else clock_scale_generic _freq _counter period_den.

(** [switch (_freq)] of [cpu_clock::cpu_clock_scale_dispatch]. *)
Definition cpu_clock_scale_dispatch (_freq _counter : Z) : outcome Z :=
  if _freq =? 24000000 then clock_scale_24MHz _counter period_den
  else clock_scale_generic _freq _counter period_den.

(** [struct timespec] *)
Record timespec : Set := { tv_sec : Z; tv_nsec : Z }.

(** What the operating system and the hardware answer during one call of
    [now()].  The counter registers are [unsigned long long]; the
    performance counter is a [LARGE_INTEGER] ([int64_t]). *)
Record reads : Set := {
  QueryPerformanceFrequency : Z;
  QueryPerformanceCounter : Z;
  cntfrq_el0 : Z;
  cntvct_el0 : Z;
  clock_gettime_MONOTONIC_RAW : timespec;
  clock_gettime_MONOTONIC : timespec
}.

Definition query_performance_frequency (r : reads) : Z :=
  QueryPerformanceFrequency r.

Definition query_performance_counter (r : reads) : Z :=
  QueryPerformanceCounter r.

Definition read_cpu_clock (r : reads) : Z := cntvct_el0 r.

Definition read_cpu_clock_freq (r : reads) : Z := cntfrq_el0 r.

(** [std::chrono::seconds(s) + std::chrono::nanoseconds(n)]: the seconds are
    converted to the common duration type, nanoseconds, by a multiplication
    with the ratio of the two periods, then the counts are added. *)
Definition seconds_plus_nanoseconds (s n : Z) : outcome Z :=
  s_ns <- mul64 s period_den ;;
  add64 s_ns n.

Module monotonic_raw.
Definition now (r : reads) : outcome Z :=
  let ts := clock_gettime_MONOTONIC_RAW r in
  seconds_plus_nanoseconds (tv_sec ts) (tv_nsec ts).
End monotonic_raw.

Module monotonic.
Definition now (r : reads) : outcome Z :=
  let ts := clock_gettime_MONOTONIC r in
  seconds_plus_nanoseconds (tv_sec ts) (tv_nsec ts).
End monotonic.

Module win32_performance_counter.
Definition now (r : reads) : outcome Z :=
  let freq := query_performance_frequency r in
  let counter := query_performance_counter r in
  qpc_scale_dispatch freq counter.
End win32_performance_counter.

Module cpu_clock.
Definition now (r : reads) : outcome Z :=
  let freq := Int64.of_unsigned (read_cpu_clock_freq r) in
  let counter := Int64.of_unsigned (read_cpu_clock r) in
  cpu_clock_scale_dispatch freq counter.
End cpu_clock.

(** ** Clock selection *)

Inductive clock : Set :=
| steady_clock
| timers_cpu_clock
| timers_monotonic_raw
| timers_monotonic
| timers_win32_performance_counter.

(** The [#if defined(TRACY_TIMER_FALLBACK)] ... [#endif] block that ends the
    header, as a function of the five conditions it tests. *)
Definition high_res_time
    (TRACY_TIMER_FALLBACK TRACY_HAVE_CPU_CLOCK_KNOWN_FREQUENCY
     CLOCK_MONOTONIC_RAW CLOCK_MONOTONIC _WIN32 : bool) : clock :=
  if TRACY_TIMER_FALLBACK then steady_clock
  else
    if TRACY_HAVE_CPU_CLOCK_KNOWN_FREQUENCY then timers_cpu_clock
    else if CLOCK_MONOTONIC_RAW then timers_monotonic_raw
    else if CLOCK_MONOTONIC then timers_monotonic
    else if _WIN32 then timers_win32_performance_counter
    else steady_clock.

(** The two macros the header owns.  It [#undef]s both on entry, so a
    definition given on the command line is not seen. *)
Record cpu_clock_macros : Set := {
  TRACY_HAVE_CPU_CLOCK : bool;
  TRACY_HAVE_CPU_CLOCK_KNOWN_FREQUENCY : bool
}.

Definition undef_cpu_clock : cpu_clock_macros :=
  {| TRACY_HAVE_CPU_CLOCK := false;
     TRACY_HAVE_CPU_CLOCK_KNOWN_FREQUENCY := false |}.

Definition define_cpu_clock : cpu_clock_macros :=
  {| TRACY_HAVE_CPU_CLOCK := true;
     TRACY_HAVE_CPU_CLOCK_KNOWN_FREQUENCY := true |}.

(** Predefined macros of the compiler and the platform headers. *)
Record target : Set := {
  _M_ARM64 : bool;
  __aarch64__ : bool;
  __clang__ : bool;
  have_TRACY_TIMER_FALLBACK : bool;
  have_CLOCK_MONOTONIC_RAW : bool;
  have_CLOCK_MONOTONIC : bool;
  have_WIN32 : bool
}.

(** [#if !defined(TRACY_HAVE_CPU_CLOCK)] / [#if defined(_M_ARM64)] *)
Definition msvc_arm64_block (t : target) (m : cpu_clock_macros) : cpu_clock_macros :=
  if negb (TRACY_HAVE_CPU_CLOCK m) then
    if _M_ARM64 t then define_cpu_clock else m
  else m.

(** [#if !defined(TRACY_HAVE_CPU_CLOCK)] /
    [#if defined(__aarch64__) || (defined(_M_ARM64) && defined(__clang__))] *)
Definition gnu_aarch64_block (t : target) (m : cpu_clock_macros) : cpu_clock_macros :=
  if negb (TRACY_HAVE_CPU_CLOCK m) then
    if __aarch64__ t || (_M_ARM64 t && __clang__ t) then define_cpu_clock else m
  else m.

Definition preprocess (t : target) : cpu_clock_macros :=
  gnu_aarch64_block t (msvc_arm64_block t undef_cpu_clock).

Definition high_res_time_of (t : target) : clock :=
  high_res_time (have_TRACY_TIMER_FALLBACK t)
                (TRACY_HAVE_CPU_CLOCK_KNOWN_FREQUENCY (preprocess t))
                (have_CLOCK_MONOTONIC_RAW t) (have_CLOCK_MONOTONIC t)
                (have_WIN32 t).

(** The selection as section 4.4 words it: an ordered list of rules, the
    first rule whose capability is present wins, and a default. *)
Definition first_match {A} (rules : list (bool * A)) (default : A) : A :=
  match find fst rules with
  | Some (_, a) => a
  | None => default
  end.

Definition selection_policy
    (fallback_override cpu_counter raw_monotonic std_monotonic perf_counter : bool)
    : clock :=
  first_match
    [ (fallback_override, steady_clock);
      (cpu_counter, timers_cpu_clock);
      (raw_monotonic, timers_monotonic_raw);
      (std_monotonic, timers_monotonic);
      (perf_counter, timers_win32_performance_counter) ]
    steady_clock.

(** ** Auxiliary definitions for the statements *)

(** What the three statements of [clock_scale_generic] compute when no
    result is cut to 64 bits. *)
Definition scale_exact (f c d : Z) : Z :=
  Z.quot c f * d + Z.quot (Z.rem c f * d) f.

(** The five stores of a run: quotient, [whole], product of the remainder,
    [part], and the returned sum. *)
Definition all_fit (f c d : Z) : bool :=
  Int64.in_range (Z.quot c f)
  && Int64.in_range (Z.quot c f * d)
  && Int64.in_range (Z.rem c f * d)
  && Int64.in_range (Z.quot (Z.rem c f * d) f)
  && Int64.in_range (scale_exact f c d).

(** Monotonicity of a scaling over the counters on which it does not
    overflow. *)
Definition monotone_when_clean (g : Z -> outcome Z) : Prop :=
  forall c1 c2 t1 t2,
    c1 <= c2 -> g c1 = Value t1 false -> g c2 = Value t2 false -> t1 <= t2.

(** Two [timespec] reads in time order, and the normal form POSIX gives
    them. *)
Definition timespec_le (a b : timespec) : Prop :=
  tv_sec a < tv_sec b \/ (tv_sec a = tv_sec b /\ tv_nsec a <= tv_nsec b).

Definition timespec_normal (a : timespec) : Prop :=
  0 <= tv_nsec a < 1000000000.

(** A [timespec] as [clock_gettime] fills it for a monotonic clock: seconds
    since a start point that is not in the future, the POSIX range of
    [tv_nsec], and a total that the clock's 64-bit nanosecond count holds
    (some 292 years). *)
Definition os_timespec (ts : timespec) : Prop :=
  0 <= tv_sec ts /\
  0 <= tv_nsec ts < 1000000000 /\
  tv_sec ts * 1000000000 + tv_nsec ts <= Int64.max_signed.

(** The reads of an ordinary call. *)
Definition sample_reads : reads :=
  {| QueryPerformanceFrequency := 10000000;
     QueryPerformanceCounter := 123456789;
     cntfrq_el0 := 24000000;
     cntvct_el0 := 987654321;
     clock_gettime_MONOTONIC_RAW := {| tv_sec := 86400; tv_nsec := 999999999 |};
     clock_gettime_MONOTONIC := {| tv_sec := 86401; tv_nsec := 5 |} |}.

(** Both stores of [seconds_plus_nanoseconds] stay inside the 64-bit
    count. *)
Definition timespec_fits (ts : timespec) : bool :=
  Int64.in_range (tv_sec ts * 1000000000)
  && Int64.in_range (tv_sec ts * 1000000000 + tv_nsec ts).

(** A call [2^63] nanoseconds after the origin of the monotonic clocks. *)
Definition reads_past_2_63_ns : reads :=
  {| QueryPerformanceFrequency := 0;
     QueryPerformanceCounter := 0;
     cntfrq_el0 := 0;
     cntvct_el0 := 0;
     clock_gettime_MONOTONIC_RAW :=
       {| tv_sec := 9223372036; tv_nsec := 854775808 |};
     clock_gettime_MONOTONIC :=
       {| tv_sec := 9223372036; tv_nsec := 854775808 |} |}.

(** Two calls on a 1 GHz counter register, just before and at [2^63]. *)
Definition reads_below_2_63 : reads :=
  {| QueryPerformanceFrequency := 0;
     QueryPerformanceCounter := 0;
     cntfrq_el0 := 1000000000;
     cntvct_el0 := 2 ^ 63 - 1;
     clock_gettime_MONOTONIC_RAW := {| tv_sec := 0; tv_nsec := 0 |};
     clock_gettime_MONOTONIC := {| tv_sec := 0; tv_nsec := 0 |} |}.

Definition reads_at_2_63 : reads :=
  {| QueryPerformanceFrequency := 0;
     QueryPerformanceCounter := 0;
     cntfrq_el0 := 1000000000;
     cntvct_el0 := 2 ^ 63;
     clock_gettime_MONOTONIC_RAW := {| tv_sec := 0; tv_nsec := 0 |};
     clock_gettime_MONOTONIC := {| tv_sec := 0; tv_nsec := 0 |} |}.

(** A call late in the life of the counter register. *)
Definition late_reads : reads :=
  {| QueryPerformanceFrequency := 0;
     QueryPerformanceCounter := 0;
     cntfrq_el0 := 24000000;
     cntvct_el0 := 2 ^ 64 - 24000000;
     clock_gettime_MONOTONIC_RAW := {| tv_sec := 0; tv_nsec := 0 |};
     clock_gettime_MONOTONIC := {| tv_sec := 0; tv_nsec := 0 |} |}.

(** The form the comment in [clock_scale_generic] sets aside,
    [(_counter * _period_den) / _freq]. *)
Definition clock_scale_naive (_freq _counter _period_den : Z) : outcome Z :=
  p <- mul64 _counter _period_den ;;
  div64 p _freq.

(** The guards around the four clock structs: [#if defined(CLOCK_MONOTONIC_RAW)],
    [#if defined(CLOCK_MONOTONIC)], [#if defined(_WIN32)] and
    [#if defined(TRACY_HAVE_CPU_CLOCK_KNOWN_FREQUENCY)].
    [std::chrono::steady_clock] comes with [<chrono>]. *)
Definition struct_defined
    (k : clock)
    (TRACY_HAVE_CPU_CLOCK_KNOWN_FREQUENCY
     CLOCK_MONOTONIC_RAW CLOCK_MONOTONIC _WIN32 : bool) : bool :=
  match k with
  | steady_clock => true
  | timers_cpu_clock => TRACY_HAVE_CPU_CLOCK_KNOWN_FREQUENCY
  | timers_monotonic_raw => CLOCK_MONOTONIC_RAW
  | timers_monotonic => CLOCK_MONOTONIC
  | timers_win32_performance_counter => _WIN32
  end.

(** The two bodies the header has for [read_cpu_clock] and
    [read_cpu_clock_freq]: the [_ReadStatusReg] intrinsic and the [mrs]
    inline assembly. *)
Inductive cpu_clock_reader : Set :=
| ReadStatusReg_intrinsic
| mrs_inline_asm.

(** The definitions of the pair of readers each block emits, under the same
    conditions as its [#define]s. *)
Definition msvc_arm64_readers (t : target) (m : cpu_clock_macros)
    : list cpu_clock_reader :=
  if negb (TRACY_HAVE_CPU_CLOCK m) then
    if _M_ARM64 t then [ReadStatusReg_intrinsic] else []
  else [].

Definition gnu_aarch64_readers (t : target) (m : cpu_clock_macros)
    : list cpu_clock_reader :=
  if negb (TRACY_HAVE_CPU_CLOCK m) then
    if __aarch64__ t || (_M_ARM64 t && __clang__ t) then [mrs_inline_asm]
    else []
  else [].

(** All definitions of the readers in one translation unit, in order. *)
Definition cpu_clock_readers (t : target) : list cpu_clock_reader :=
  msvc_arm64_readers t undef_cpu_clock
  ++ gnu_aarch64_readers t (msvc_arm64_block t undef_cpu_clock).

(** ** tracy/common/TracyYield.hpp *)

Module TracyYield.

(** The macros the header tests.  [_M_IX86_FP] carries a value. *)
Record macros : Set := {
  __SSE2__ : bool;
  _M_AMD64 : bool;
  _M_IX86_FP : option Z;
  _MSC_VER : bool;
  _M_ARM : bool;
  _M_ARM64 : bool;
  __aarch64__ : bool
}.

(** [defined __SSE2__ || defined _M_AMD64 ||
     (defined _M_IX86_FP && _M_IX86_FP == 2)] *)
Definition sse2 (m : macros) : bool :=
  __SSE2__ m || _M_AMD64 m
  || match _M_IX86_FP m with Some v => v =? 2 | None => false end.

(** [defined(_MSC_VER) && (defined(_M_ARM) || defined(_M_ARM64))] *)
Definition msvc_arm (m : macros) : bool :=
  _MSC_VER m && (_M_ARM m || _M_ARM64 m).

(** What the first conditional of the header brings in. *)
Inductive provision : Set :=
| include_emmintrin
| pragma_intrinsic_yield
| include_thread.

Definition preamble (m : macros) : provision :=
  if sse2 m then include_emmintrin
  else if msvc_arm m then pragma_intrinsic_yield
  else include_thread.

(** The statement [YieldThread] consists of. *)
Inductive hint : Set :=
| mm_pause
| yield_intrinsic
| isb_asm
| this_thread_yield.

Definition YieldThread (m : macros) : hint :=
  if sse2 m then mm_pause
  else if msvc_arm m then yield_intrinsic
  else if __aarch64__ m then isb_asm
  else this_thread_yield.

(** What a statement needs declared: [_mm_pause] is declared by
    [<emmintrin.h>], [__yield] is the MSVC intrinsic, [std::this_thread] is
    in [<thread>]; inline assembly needs nothing. *)
Definition needs (h : hint) : option provision :=
  match h with
  | mm_pause => Some include_emmintrin
  | yield_intrinsic => Some pragma_intrinsic_yield
  | isb_asm => None
  | this_thread_yield => Some include_thread
  end.

End TracyYield.

(* Closed comparisons of large literals. *)
Ltac by_computation := vm_compute; first [reflexivity | discriminate].

Ltac int64_bounds :=
  unfold Int64.max_signed, Int64.min_signed, Int64.half_modulus in *.

(** * Properties *)

(** ** Signed 64-bit arithmetic *)

Lemma in_range_iff (z : Z) :
  Int64.in_range z = true <-> Int64.min_signed <= z <= Int64.max_signed.
Proof.
  unfold Int64.in_range.
  rewrite andb_true_iff, !Z.leb_le. tauto.
Qed.

Lemma in_range_bounds (z : Z) :
  Int64.in_range z = true <-> - 2 ^ 63 <= z <= 2 ^ 63 - 1.
Proof. apply in_range_iff. Qed.

Lemma wrap_in_range (z : Z) :
  Int64.in_range z = true -> Int64.wrap z = z.
Proof.
  rewrite in_range_iff.
  unfold Int64.wrap, Int64.min_signed, Int64.max_signed,
    Int64.modulus, Int64.half_modulus.
  intros H. rewrite Z.mod_small; lia.
Qed.

Lemma wrap_is_int64 (z : Z) : Int64.in_range (Int64.wrap z) = true.
Proof.
  apply in_range_iff.
  unfold Int64.wrap, Int64.min_signed, Int64.max_signed,
    Int64.modulus, Int64.half_modulus.
  pose proof (Z.mod_pos_bound (z + 2 ^ 63) (2 ^ 64) ltac:(lia)). lia.
Qed.

Lemma of_unsigned_small (u : Z) :
  0 <= u < 2 ^ 63 -> Int64.of_unsigned u = u.
Proof.
  intros Hu. apply wrap_in_range, in_range_bounds. lia.
Qed.

Lemma of_unsigned_large (u : Z) :
  2 ^ 63 <= u < 2 ^ 64 -> Int64.of_unsigned u = u - 2 ^ 64.
Proof.
  intros Hu. unfold Int64.of_unsigned, Int64.wrap,
    Int64.modulus, Int64.half_modulus.
  replace (u + 2 ^ 63) with (u - 2 ^ 63 + 1 * 2 ^ 64) by ring.
  rewrite Z.mod_add, Z.mod_small by lia. ring.
Qed.

(** The conversion keeps the order of two register values unless the
    register passes [2^63] between them. *)
Lemma of_unsigned_monotone (u1 u2 : Z) :
  0 <= u1 <= u2 -> u2 < 2 ^ 64 ->
  u2 < 2 ^ 63 \/ 2 ^ 63 <= u1 ->
  Int64.of_unsigned u1 <= Int64.of_unsigned u2.
Proof.
  intros Hu Hmax [Hlow | Hhigh].
  - rewrite !of_unsigned_small by lia. lia.
  - rewrite !of_unsigned_large by lia. lia.
Qed.

Lemma fit_exact (z : Z) :
  Int64.in_range z = true -> fit z = Value z false.
Proof.
  intros H. unfold fit. now rewrite (wrap_in_range z H), H.
Qed.

Lemma fit_clean (z v : Z) :
  fit z = Value v false -> Int64.in_range z = true /\ v = z.
Proof.
  unfold fit. intros H. injection H as Hv Ho.
  apply negb_false_iff in Ho. split; [exact Ho|].
  now rewrite <- Hv, wrap_in_range.
Qed.

Lemma bind_clean {A B} (m : outcome A) (k : A -> outcome B) (b : B) :
  bind m k = Value b false ->
  exists a, m = Value a false /\ k a = Value b false.
Proof.
  destruct m as [e | a o]; simpl; [discriminate|].
  destruct (k a) as [e | b' o'] eqn:Hk; [discriminate|].
  intros H. injection H as Hb Ho.
  apply orb_false_iff in Ho as [-> ->]. subst b'. now exists a.
Qed.

Lemma bind_value {A B} (a : A) (k : A -> outcome B) :
  bind (Value a false) k = k a.
Proof. simpl. now destruct (k a). Qed.

Lemma div64_pos (a b : Z) : 0 < b -> div64 a b = fit (Z.quot a b).
Proof.
  intros H. unfold div64.
  destruct (Z.eqb_spec b 0); [lia|]. destruct (Z.eqb_spec b (-1)); [lia|].
  reflexivity.
Qed.

Lemma overflowing_quotient (a b : Z) :
  (b =? -1) && (a =? Int64.min_signed) = true ->
  Int64.in_range (Z.quot a b) = false.
Proof.
  rewrite andb_true_iff, !Z.eqb_eq. intros [-> ->]. reflexivity.
Qed.

Lemma div64_fits (a b : Z) :
  b <> 0 -> Int64.in_range (Z.quot a b) = true ->
  div64 a b = Value (Z.quot a b) false.
Proof.
  intros Hb Hq. unfold div64.
  destruct (Z.eqb_spec b 0); [contradiction|].
  destruct ((b =? -1) && (a =? Int64.min_signed)) eqn:Ho.
  - apply overflowing_quotient in Ho. congruence.
  - now apply fit_exact.
Qed.

Lemma div64_clean (a b q : Z) :
  div64 a b = Value q false ->
  b <> 0 /\ Int64.in_range (Z.quot a b) = true /\ q = Z.quot a b.
Proof.
  unfold div64. destruct (Z.eqb_spec b 0); [discriminate|].
  destruct ((b =? -1) && (a =? Int64.min_signed)); [discriminate|].
  intros H. apply fit_clean in H. tauto.
Qed.

Lemma rem64_pos (a b : Z) :
  0 < b ->
  rem64 a b = Value (Z.rem a b) (negb (Int64.in_range (Z.quot a b))).
Proof.
  intros H. unfold rem64.
  destruct (Z.eqb_spec b 0); [lia|]. destruct (Z.eqb_spec b (-1)); [lia|].
  reflexivity.
Qed.

Lemma rem64_fits (a b : Z) :
  b <> 0 -> Int64.in_range (Z.quot a b) = true ->
  rem64 a b = Value (Z.rem a b) false.
Proof.
  intros Hb Hq. unfold rem64.
  destruct (Z.eqb_spec b 0); [contradiction|].
  destruct ((b =? -1) && (a =? Int64.min_signed)) eqn:Ho.
  - apply overflowing_quotient in Ho. congruence.
  - now rewrite Hq.
Qed.

Lemma rem64_clean (a b r : Z) :
  rem64 a b = Value r false ->
  b <> 0 /\ Int64.in_range (Z.quot a b) = true /\ r = Z.rem a b.
Proof.
  unfold rem64. destruct (Z.eqb_spec b 0); [discriminate|].
  destruct ((b =? -1) && (a =? Int64.min_signed)); [discriminate|].
  intros H. injection H as <- Ho. apply negb_false_iff in Ho. tauto.
Qed.

(** Dividing an [int64_t] by a positive divisor cannot leave the range. *)
Lemma quot_in_range (m f : Z) :
  0 < f -> Int64.in_range m = true -> Int64.in_range (Z.quot m f) = true.
Proof.
  rewrite !in_range_bounds. intros Hf Hm.
  destruct (Z.le_gt_cases 0 m) as [Hpos | Hneg].
  - rewrite Z.quot_div_nonneg by lia.
    assert (0 <= m / f) by (apply Z.div_pos; lia).
    assert (m / f <= m) by (apply Z.div_le_upper_bound; nia).
    lia.
  - replace (Z.quot m f) with (- Z.quot (- m) f)
      by (rewrite Z.quot_opp_l by lia; lia).
    rewrite Z.quot_div_nonneg by lia.
    assert (0 <= - m / f) by (apply Z.div_pos; lia).
    assert (- m / f <= - m) by (apply Z.div_le_upper_bound; nia).
    lia.
Qed.

(** ** The scaling in exact arithmetic *)

Lemma scale_exact_quot (f c d : Z) :
  f <> 0 -> scale_exact f c d = Z.quot (c * d) f.
Proof.
  intros Hf. unfold scale_exact.
  pose proof (Z.quot_rem' c f) as Hc.
  assert (Hs : 0 <= c * Z.rem c f).
  { destruct (Z.eq_dec (Z.rem c f) 0) as [-> | Hr]; [lia|].
    pose proof (Z.rem_sign_nz c f Hf Hr) as Hsg.
    rewrite <- Z.sgn_nonneg, Z.sgn_mul, <- Hsg.
    destruct (Z.sgn_spec (Z.rem c f)) as [[_ ->] | [[_ ->] | [_ ->]]]; lia. }
  replace (c * d) with (Z.rem c f * d + (Z.quot c f * d) * f) at 1
    by (rewrite Hc at 3; ring).
  rewrite Z.quot_add by (trivial; nia). ring.
Qed.

Lemma scale_exact_nonneg (f c d : Z) :
  0 < f -> 0 <= c -> 0 <= d -> scale_exact f c d = c * d / f.
Proof.
  intros Hf Hc Hd. rewrite scale_exact_quot by lia.
  apply Z.quot_div_nonneg; nia.
Qed.

Lemma clock_scale_generic_run (f c d : Z) :
  f <> 0 -> all_fit f c d = true ->
  clock_scale_generic f c d = Value (scale_exact f c d) false.
Proof.
  intros Hf H. unfold all_fit in H.
  do 4 (apply andb_true_iff in H as [H ?]).
  unfold clock_scale_generic, mul64, add64.
  rewrite div64_fits, bind_value by assumption.
  rewrite fit_exact, bind_value by assumption.
  rewrite rem64_fits, bind_value by assumption.
  rewrite fit_exact, bind_value by assumption.
  rewrite div64_fits, bind_value by assumption.
  now apply fit_exact.
Qed.

Lemma clock_scale_generic_clean (f c d v : Z) :
  clock_scale_generic f c d = Value v false ->
  f <> 0 /\ all_fit f c d = true /\ v = scale_exact f c d.
Proof.
  unfold clock_scale_generic. intros H.
  apply bind_clean in H as (q & Hq & H).
  apply div64_clean in Hq as (Hf & Hq1 & ->).
  split; [exact Hf|].
  apply bind_clean in H as (w & Hw & H). apply fit_clean in Hw as [Hw1 ->].
  apply bind_clean in H as (r & Hr & H).
  apply rem64_clean in Hr as (_ & _ & ->).
  apply bind_clean in H as (m & Hm & H). apply fit_clean in Hm as [Hm1 ->].
  apply bind_clean in H as (p & Hp & H).
  apply div64_clean in Hp as (_ & Hp1 & ->).
  apply fit_clean in H as [Hs1 ->].
  unfold all_fit, scale_exact. now rewrite Hq1, Hw1, Hm1, Hp1, Hs1.
Qed.

(** A run is clean exactly when every store fits. *)
Lemma clock_scale_generic_clean_iff (f c d : Z) :
  clean (clock_scale_generic f c d) = true <-> f <> 0 /\ all_fit f c d = true.
Proof.
  split.
  - destruct (clock_scale_generic f c d) as [e | v [|]] eqn:H;
      simpl; try discriminate.
    intros _. apply clock_scale_generic_clean in H. tauto.
  - intros [Hf H]. now rewrite clock_scale_generic_run.
Qed.

(** With a positive frequency the scaling always has a value; with a zero
    frequency it never has. *)
Lemma clock_scale_generic_value (f c d : Z) :
  0 < f -> exists v o, clock_scale_generic f c d = Value v o.
Proof.
  intros Hf. unfold clock_scale_generic.
  rewrite div64_pos, rem64_pos by assumption.
  unfold mul64, add64, fit, bind.
  rewrite div64_pos by assumption. unfold fit.
  do 2 eexists. reflexivity.
Qed.


(** ** Non-negative counters *)

Section NonNegativeCounter.

Variables f c d : Z.
Hypothesis Hf : 0 < f.
Hypothesis Hd : 0 <= d.
Hypothesis Hc : 0 <= c <= Int64.max_signed.

Lemma counter_split :
  c = f * (c / f) + c mod f /\ 0 <= c mod f < f /\ 0 <= c / f <= c.
Proof.
  pose proof (Z.div_mod c f ltac:(lia)).
  pose proof (Z.mod_pos_bound c f Hf).
  assert (0 <= c / f) by (apply Z.div_pos; lia).
  repeat split; try lia. nia.
Qed.

Lemma whole_le_exact : c / f * d <= c * d / f.
Proof.
  destruct counter_split as (Hq & Hr & Hq').
  apply Z.div_le_lower_bound; [lia | nia].
Qed.

Lemma part_bounds : 0 <= c mod f * d / f <= c mod f * d.
Proof.
  destruct counter_split as (Hq & Hr & Hq').
  split.
  - apply Z.div_pos; nia.
  - apply Z.div_le_upper_bound; nia.
Qed.

Lemma all_fit_nonneg :
  (f - 1) * d <= Int64.max_signed ->
  c * d / f <= Int64.max_signed ->
  all_fit f c d = true.
Proof.
  intros Hfd Hres.
  destruct counter_split as (Hq & Hr & Hq').
  pose proof whole_le_exact as Hw. pose proof part_bounds as Hp.
  assert (Hx : 0 <= c * d / f) by (apply Z.div_pos; nia).
  unfold all_fit. rewrite scale_exact_nonneg by lia.
  rewrite (Z.quot_div_nonneg c f), (Z.rem_mod_nonneg c f) by lia.
  rewrite (Z.quot_div_nonneg (c mod f * d) f) by nia.
  rewrite !andb_true_iff, !in_range_iff.
  int64_bounds. repeat split; nia.
Qed.

(** Conversely the returned sum is the exact quotient, so a run cannot be
    clean when that quotient needs more than 63 bits. *)
Lemma all_fit_nonneg_result :
  all_fit f c d = true -> c * d / f <= Int64.max_signed.
Proof.
  unfold all_fit. rewrite scale_exact_nonneg by lia.
  rewrite !andb_true_iff, !in_range_iff. tauto.
Qed.

End NonNegativeCounter.

(** ** Exactness of the split computation *)

(** C1, as the code has it: for a frequency [f > 0] with
    [(f - 1) * 10^9 <= 2^63 - 1] and a counter [c] in [[0, 2^62)] whose
    scaled value [floor (c * 10^9 / f)] is at most [2^63 - 1],
    [clock_scale_generic f c 1000000000] returns exactly
    [floor (c * 10^9 / f)], the value of the naive form in arbitrary
    precision, and no store of the run overflows. *)
Theorem clock_scale_generic_exact (f c : Z) :
  0 < f ->
  (f - 1) * 1000000000 <= 2 ^ 63 - 1 ->
  0 <= c < 2 ^ 62 ->
  c * 1000000000 / f <= 2 ^ 63 - 1 ->
  clock_scale_generic f c 1000000000 = Value (c * 1000000000 / f) false.
Proof.
  intros Hf Hfd Hc Hres.
  rewrite clock_scale_generic_run.
  - now rewrite scale_exact_nonneg by lia.
  - lia.
  - apply all_fit_nonneg; int64_bounds; lia.
Qed.

Lemma clock_scale_generic_exact_witness :
  clock_scale_generic 24000000 123456789012345678 1000000000
  = Value 5144032875514403250 false.
Proof.
  apply (clock_scale_generic_exact 24000000 123456789012345678).
  - lia.
  - lia.
  - lia.
  - by_computation.
Defined.

(** C1 as stated fails in two ways.  At 10 MHz the counter
    92233720368547759 lies in [[0, 2^62)], its exact scaled value is
    9223372036854775900, above [2^63 - 1], and the code returns the wrapped
    sum.  At [f = 10^10] the counter 9999999999 has the exact scaled value
    999999999, but the product [(c mod f) * 10^9] does not fit and the code
    returns -844674407. *)
Lemma clock_scale_generic_exact_counterexample :
  (0 < 10000000 /\
   0 <= 92233720368547759 < 2 ^ 62 /\
   92233720368547759 * 1000000000 / 10000000 = 9223372036854775900 /\
   clock_scale_generic 10000000 92233720368547759 1000000000
   = Value (-9223372036854775716) true /\
   value_of (clock_scale_generic 10000000 92233720368547759 1000000000)
   <> Some (92233720368547759 * 1000000000 / 10000000)) /\
  (0 < 10000000000 /\
   0 <= 9999999999 < 2 ^ 62 /\
   9999999999 * 1000000000 / 10000000000 = 999999999 /\
   clock_scale_generic 10000000000 9999999999 1000000000
   = Value (-844674407) true /\
   value_of (clock_scale_generic 10000000000 9999999999 1000000000)
   <> Some (9999999999 * 1000000000 / 10000000000)).
Proof.
  repeat apply conj; try lia; by_computation.
Qed.

(** C2, as the code has it: for every frequency [f] with
    [0 < f <= 9223372037] (so that [(f - 1) * 10^9] fits) and every counter
    [c] in [[0, 2^62)] whose scaled value [floor (c * 10^9 / f)] is at most
    [2^63 - 1], the multiplications [(c / f) * 10^9] and
    [(c mod f) * 10^9], the division [((c mod f) * 10^9) / f] and the sum
    [whole + part] all stay inside the signed 64-bit range, and so does the
    whole run. *)
Theorem clock_scale_generic_no_overflow (f c : Z) :
  0 < f <= 9223372037 ->
  0 <= c < 2 ^ 62 ->
  c * 1000000000 / f <= 2 ^ 63 - 1 ->
  let whole := Z.quot c f * 1000000000 in
  let part := Z.quot (Z.rem c f * 1000000000) f in
  mul64 (Z.quot c f) 1000000000 = Value whole false /\
  mul64 (Z.rem c f) 1000000000 = Value (Z.rem c f * 1000000000) false /\
  div64 (Z.rem c f * 1000000000) f = Value part false /\
  add64 whole part = Value (whole + part) false /\
  clean (clock_scale_generic f c 1000000000) = true.
Proof.
  intros Hf Hc Hres whole part.
  assert (H : all_fit f c 1000000000 = true)
    by (apply all_fit_nonneg; int64_bounds; lia).
  assert (Hrun : clean (clock_scale_generic f c 1000000000) = true)
    by (apply clock_scale_generic_clean_iff; split; [lia | exact H]).
  unfold all_fit in H. do 4 (apply andb_true_iff in H as [H ?]).
  unfold mul64, add64. rewrite div64_pos by lia.
  subst whole part. rewrite !fit_exact by assumption. auto.
Qed.

Lemma clock_scale_generic_no_overflow_witness :
  clean (clock_scale_generic 9223372037 4611686018427387903 1000000000) = true.
Proof.
  apply (clock_scale_generic_no_overflow 9223372037 4611686018427387903).
  - lia.
  - lia.
  - by_computation.
Defined.

(** C2 as stated fails inside its own bounds.  At [f = 10^10] the product
    [(c mod f) * 10^9] of the counter 9999999999 is 9999999999000000000,
    above [2^63 - 1].  At 10 MHz the counter 92233720368547759 has
    [whole = 9223372036000000000] and [part = 854775900], whose sum is
    above [2^63 - 1]. *)
Lemma clock_scale_generic_no_overflow_counterexample :
  (0 < 10000000000 <= 10 ^ 10 /\
   0 <= 9999999999 < 2 ^ 62 /\
   Z.rem 9999999999 10000000000 * 1000000000 = 9999999999000000000 /\
   Int64.wrap 9999999999000000000 <> 9999999999000000000 /\
   mul64 (Z.rem 9999999999 10000000000) 1000000000
   = Value (-8446744074709551616) true /\
   clean (clock_scale_generic 10000000000 9999999999 1000000000) = false) /\
  (0 < 10000000 <= 10 ^ 10 /\
   0 <= 92233720368547759 < 2 ^ 62 /\
   mul64 (Z.quot 92233720368547759 10000000) 1000000000
   = Value 9223372036000000000 false /\
   div64 (Z.rem 92233720368547759 10000000 * 1000000000) 10000000
   = Value 854775900 false /\
   Int64.wrap (9223372036000000000 + 854775900)
   <> 9223372036000000000 + 854775900 /\
   add64 9223372036000000000 854775900
   = Value (-9223372036854775716) true /\
   clean (clock_scale_generic 10000000 92233720368547759 1000000000) = false).
Proof.
  repeat apply conj; try lia; by_computation.
Qed.

(** ** Specializations and dispatch *)

Lemma qpc_scale_dispatch_generic (f c : Z) :
  qpc_scale_dispatch f c = clock_scale_generic f c period_den.
Proof.
  unfold qpc_scale_dispatch, clock_scale_10MHz, clock_scale_24MHz.
  destruct (Z.eqb_spec f 10000000) as [-> | _]; [reflexivity|].
  destruct (Z.eqb_spec f 24000000) as [-> | _]; reflexivity.
Qed.

Lemma cpu_clock_scale_dispatch_generic (f c : Z) :
  cpu_clock_scale_dispatch f c = clock_scale_generic f c period_den.
Proof.
  unfold cpu_clock_scale_dispatch, clock_scale_24MHz.
  destruct (Z.eqb_spec f 24000000) as [-> | _]; reflexivity.
Qed.

(** C3: the 10 MHz and 24 MHz specializations are the generic scaling at
    their frequency, for every counter and period denominator, and both
    frequency dispatches equal the generic scaling with denominator [10^9],
    for every frequency and counter (value and overflow flag alike). *)
Theorem specializations_equal_generic :
  (forall c d, clock_scale_10MHz c d = clock_scale_generic 10000000 c d) /\
  (forall c d, clock_scale_24MHz c d = clock_scale_generic 24000000 c d) /\
  (forall f c,
      qpc_scale_dispatch f c = clock_scale_generic f c 1000000000) /\
  (forall f c,
      cpu_clock_scale_dispatch f c = clock_scale_generic f c 1000000000).
Proof.
  repeat split; intros.
  - apply qpc_scale_dispatch_generic.
  - apply cpu_clock_scale_dispatch_generic.
Qed.

(** C7: frequency 10000000, counter 123456789 and period denominator
    1000000000 scale to exactly 12345678900 nanoseconds, through
    [clock_scale_10MHz] and through [clock_scale_generic], with the
    intermediate values the scenario lists and without overflow. *)
Theorem scale_10MHz_scenario :
  clock_scale_10MHz 123456789 1000000000 = Value 12345678900 false /\
  clock_scale_generic 10000000 123456789 1000000000
  = Value 12345678900 false /\
  div64 123456789 10000000 = Value 12 false /\
  rem64 123456789 10000000 = Value 3456789 false /\
  mul64 12 1000000000 = Value 12000000000 false /\
  div64 (3456789 * 1000000000) 10000000 = Value 345678900 false /\
  add64 12000000000 345678900 = Value 12345678900 false.
Proof. repeat split; vm_compute; reflexivity. Qed.

(** ** Division by zero *)

(** C6: with [f > 0] both divisions and the remainder of
    [clock_scale_generic] are defined: none can reach the division fault,
    on an [int64_t] dividend the quotient and the remainder are in range,
    and the run always ends in a value; the code itself tests nothing: on
    [f = 0] the first division is executed and faults, whatever the counter
    and the denominator. *)
Theorem frequency_zero_unguarded (f c d : Z) :
  0 < f ->
  (forall e, div64 c f <> Fault e) /\
  (forall e, rem64 c f <> Fault e) /\
  (forall m e, div64 m f <> Fault e) /\
  (forall m, Int64.in_range m = true ->
             clean (div64 m f) = true /\ clean (rem64 m f) = true) /\
  (exists v o, clock_scale_generic f c d = Value v o) /\
  clock_scale_generic 0 c d = Fault DivideByZero.
Proof.
  intros Hf. assert (Hnz : f <> 0) by lia.
  repeat apply conj.
  - intros e. rewrite div64_pos by assumption. discriminate.
  - intros e. rewrite rem64_pos by assumption. discriminate.
  - intros m e. rewrite div64_pos by assumption. discriminate.
  - intros m Hm. pose proof (quot_in_range m f Hf Hm) as Hq.
    rewrite div64_pos, rem64_pos by assumption.
    rewrite fit_exact by assumption. now rewrite Hq.
  - now apply clock_scale_generic_value.
  - reflexivity.
Qed.

Lemma frequency_zero_unguarded_witness :
  (exists v o, clock_scale_generic 24000000 (-7) 1000000000 = Value v o) /\
  clock_scale_generic 0 (-7) 1000000000 = Fault DivideByZero.
Proof.
  pose proof (frequency_zero_unguarded 24000000 (-7) 1000000000) as H.
  destruct H as (_ & _ & _ & _ & Hv & Hz); [lia|].
  split; [exact Hv | exact Hz].
Defined.

(** ** Clock selection *)

(** C4: over the five capability flags the header resolves [high_res_time]
    by first match in the order fallback override, [cpu_clock],
    [monotonic_raw], [monotonic], [win32_performance_counter], generic
    steady clock; it agrees with the ordered-rule reading on every
    combination, and with no capability at all the result is the generic
    steady clock. *)
Theorem high_res_time_first_match :
  (forall fb cpu raw mono win,
      high_res_time fb cpu raw mono win
      = selection_policy fb cpu raw mono win) /\
  (forall cpu raw mono win,
      high_res_time true cpu raw mono win = steady_clock) /\
  (forall raw mono win,
      high_res_time false true raw mono win = timers_cpu_clock) /\
  (forall mono win,
      high_res_time false false true mono win = timers_monotonic_raw) /\
  (forall win,
      high_res_time false false false true win = timers_monotonic) /\
  high_res_time false false false false true
  = timers_win32_performance_counter /\
  high_res_time false false false false false = steady_clock.
Proof.
  repeat split.
  intros [|] [|] [|] [|] [|]; reflexivity.
Qed.

(** The known-frequency CPU clock exists exactly on the 64-bit ARM targets,
    whatever is defined before the header is read. *)
Lemma preprocess_known_frequency (t : target) :
  TRACY_HAVE_CPU_CLOCK_KNOWN_FREQUENCY (preprocess t)
  = _M_ARM64 t || __aarch64__ t.
Proof.
  unfold preprocess, gnu_aarch64_block, msvc_arm64_block.
  destruct (_M_ARM64 t), (__aarch64__ t), (__clang__ t); reflexivity.
Qed.

(** ** Monotonicity *)

Lemma clock_scale_generic_monotone_clean (f d : Z) :
  0 < f -> 0 <= d -> monotone_when_clean (fun c => clock_scale_generic f c d).
Proof.
  intros Hf Hd c1 c2 t1 t2 Hc H1 H2.
  apply clock_scale_generic_clean in H1 as (_ & _ & ->).
  apply clock_scale_generic_clean in H2 as (_ & _ & ->).
  rewrite !scale_exact_quot by lia.
  apply Z.quot_le_mono; [lia | nia].
Qed.

Lemma seconds_plus_nanoseconds_clean (s n t : Z) :
  seconds_plus_nanoseconds s n = Value t false ->
  t = s * 1000000000 + n.
Proof.
  unfold seconds_plus_nanoseconds, mul64, add64, period_den. intros H.
  apply bind_clean in H as (x & Hx & H).
  apply fit_clean in Hx as [_ ->]. now apply fit_clean in H as [_ ->].
Qed.

Lemma seconds_plus_nanoseconds_monotone (a b : timespec) (t1 t2 : Z) :
  timespec_normal a -> timespec_normal b -> timespec_le a b ->
  seconds_plus_nanoseconds (tv_sec a) (tv_nsec a) = Value t1 false ->
  seconds_plus_nanoseconds (tv_sec b) (tv_nsec b) = Value t2 false ->
  t1 <= t2.
Proof.
  unfold timespec_normal, timespec_le. intros Ha Hb Hab H1 H2.
  apply seconds_plus_nanoseconds_clean in H1, H2. lia.
Qed.

(** C5, as the code has it: for a fixed frequency [f > 0] and denominator
    [d > 0], if [c1 <= c2] and neither scaling overflows the signed 64-bit
    range, then [t1 <= t2]: this holds of [clock_scale_generic], of both
    frequency dispatches, and hence of [now()] of the performance-counter
    and CPU-clock variants when the frequency read is the same and the
    counter read does not decrease; for the CPU clock, whose unsigned
    registers are stored in [int64_t], the frequency register is below
    [2^63] and the counter register does not pass [2^63] between the two
    reads.  The two [clock_gettime] variants are
    non-decreasing for normalised [timespec] reads in time order, again
    when the conversion to nanoseconds does not overflow. *)
Theorem now_monotone_when_clean (f d : Z) :
  0 < f -> 0 < d ->
  monotone_when_clean (fun c => clock_scale_generic f c d) /\
  monotone_when_clean (qpc_scale_dispatch f) /\
  monotone_when_clean (cpu_clock_scale_dispatch f) /\
  (forall r1 r2 t1 t2,
      query_performance_frequency r1 = f ->
      query_performance_frequency r2 = f ->
      query_performance_counter r1 <= query_performance_counter r2 ->
      win32_performance_counter.now r1 = Value t1 false ->
      win32_performance_counter.now r2 = Value t2 false ->
      t1 <= t2) /\
  (forall r1 r2 t1 t2,
      read_cpu_clock_freq r1 = f ->
      read_cpu_clock_freq r2 = f ->
      f < 2 ^ 63 ->
      0 <= read_cpu_clock r1 <= read_cpu_clock r2 ->
      read_cpu_clock r2 < 2 ^ 64 ->
      read_cpu_clock r2 < 2 ^ 63 \/ 2 ^ 63 <= read_cpu_clock r1 ->
      cpu_clock.now r1 = Value t1 false ->
      cpu_clock.now r2 = Value t2 false ->
      t1 <= t2) /\
  (forall r1 r2 t1 t2,
      timespec_normal (clock_gettime_MONOTONIC_RAW r1) ->
      timespec_normal (clock_gettime_MONOTONIC_RAW r2) ->
      timespec_le (clock_gettime_MONOTONIC_RAW r1)
                  (clock_gettime_MONOTONIC_RAW r2) ->
      monotonic_raw.now r1 = Value t1 false ->
      monotonic_raw.now r2 = Value t2 false ->
      t1 <= t2) /\
  (forall r1 r2 t1 t2,
      timespec_normal (clock_gettime_MONOTONIC r1) ->
      timespec_normal (clock_gettime_MONOTONIC r2) ->
      timespec_le (clock_gettime_MONOTONIC r1) (clock_gettime_MONOTONIC r2) ->
      monotonic.now r1 = Value t1 false ->
      monotonic.now r2 = Value t2 false ->
      t1 <= t2).
Proof.
  intros Hf Hd.
  assert (Hg : forall d', 0 <= d' ->
             monotone_when_clean (fun c => clock_scale_generic f c d'))
    by (intros; now apply clock_scale_generic_monotone_clean).
  assert (Hq : monotone_when_clean (qpc_scale_dispatch f)).
  { intros c1 c2 t1 t2. rewrite !qpc_scale_dispatch_generic.
    apply (Hg period_den). unfold period_den. lia. }
  assert (Hc : monotone_when_clean (cpu_clock_scale_dispatch f)).
  { intros c1 c2 t1 t2. rewrite !cpu_clock_scale_dispatch_generic.
    apply (Hg period_den). unfold period_den. lia. }
  repeat apply conj.
  - apply Hg. lia.
  - exact Hq.
  - exact Hc.
  - unfold win32_performance_counter.now.
    intros r1 r2 t1 t2 -> -> Hle. now apply Hq.
  - unfold cpu_clock.now.
    intros r1 r2 t1 t2 Hf1 Hf2 Hmax Hle Hlt Hside.
    rewrite Hf1, Hf2, (of_unsigned_small f) by lia.
    apply Hc. now apply of_unsigned_monotone.
  - unfold monotonic_raw.now. intros r1 r2 t1 t2.
    apply seconds_plus_nanoseconds_monotone.
  - unfold monotonic.now. intros r1 r2 t1 t2.
    apply seconds_plus_nanoseconds_monotone.
Qed.

Lemma now_monotone_when_clean_witness : 12345678900 <= 12345679000.
Proof.
  destruct (now_monotone_when_clean 10000000 1000000000) as [Hg _];
    [lia | lia |].
  apply (Hg 123456789 123456790); [lia | reflexivity | reflexivity].
Defined.

(** C5 as stated fails at the end of the range.  At 10 MHz with
    denominator [10^9] the counter 92233720368547758 scales to
    9223372036854775800 without overflow, and the next counter value scales
    to a negative number, because the sum no longer fits.  And at 1 GHz the
    CPU clock returns [2^63 - 1] for the counter register [2^63 - 1] and
    [- 2^63] for the next register value [2^63], neither scaling
    overflowing: the register no longer fits the [int64_t] it is stored
    in. *)
Lemma now_monotone_counterexample :
  (0 < 10000000 /\ 0 < 1000000000 /\
   92233720368547758 <= 92233720368547759 /\
   clock_scale_generic 10000000 92233720368547758 1000000000
   = Value 9223372036854775800 false /\
   clock_scale_generic 10000000 92233720368547759 1000000000
   = Value (-9223372036854775716) true /\
   qpc_scale_dispatch 10000000 92233720368547758
   = Value 9223372036854775800 false /\
   qpc_scale_dispatch 10000000 92233720368547759
   = Value (-9223372036854775716) true /\
   ~ 9223372036854775800 <= -9223372036854775716) /\
  (read_cpu_clock_freq reads_below_2_63 = 1000000000 /\
   read_cpu_clock_freq reads_at_2_63 = 1000000000 /\
   read_cpu_clock reads_below_2_63 = 2 ^ 63 - 1 /\
   read_cpu_clock reads_at_2_63 = 2 ^ 63 /\
   read_cpu_clock reads_below_2_63 <= read_cpu_clock reads_at_2_63 /\
   cpu_clock.now reads_below_2_63 = Value (2 ^ 63 - 1) false /\
   cpu_clock.now reads_at_2_63 = Value (- 2 ^ 63) false /\
   ~ 2 ^ 63 - 1 <= - 2 ^ 63).
Proof.
  repeat apply conj; try lia; vm_compute; first [reflexivity | discriminate].
Qed.

(** ** The clock_gettime variants *)

Lemma seconds_plus_nanoseconds_exact (ts : timespec) :
  os_timespec ts ->
  seconds_plus_nanoseconds (tv_sec ts) (tv_nsec ts)
  = Value (tv_sec ts * 1000000000 + tv_nsec ts) false.
Proof.
  unfold os_timespec. int64_bounds. intros (Hs & Hn & Ht).
  unfold seconds_plus_nanoseconds, mul64, add64, period_den.
  rewrite fit_exact, bind_value by (apply in_range_bounds; lia).
  apply fit_exact, in_range_bounds. lia.
Qed.

Lemma seconds_plus_nanoseconds_fits (ts : timespec) :
  timespec_fits ts = true ->
  seconds_plus_nanoseconds (tv_sec ts) (tv_nsec ts)
  = Value (tv_sec ts * 1000000000 + tv_nsec ts) false.
Proof.
  unfold timespec_fits. rewrite andb_true_iff. intros [Hs Ht].
  unfold seconds_plus_nanoseconds, mul64, add64, period_den.
  rewrite (fit_exact _ Hs), bind_value. now apply fit_exact.
Qed.

(** C8, as the code has it: the [clock_gettime] variants do no scaling:
    for every [timespec] [(sec, nsec)] whose nanosecond count fits the
    signed 64-bit count of the clock ([sec * 10^9] and [sec * 10^9 + nsec]
    within [[-2^63, 2^63 - 1]]), [monotonic_raw::now()] and
    [monotonic::now()] hold exactly [sec * 10^9 + nsec] nanoseconds, with
    neither the frequency nor any division involved. *)
Theorem clock_gettime_now_unscaled (r : reads) :
  timespec_fits (clock_gettime_MONOTONIC_RAW r) = true ->
  timespec_fits (clock_gettime_MONOTONIC r) = true ->
  monotonic_raw.now r
  = Value (tv_sec (clock_gettime_MONOTONIC_RAW r) * 1000000000
           + tv_nsec (clock_gettime_MONOTONIC_RAW r)) false /\
  monotonic.now r
  = Value (tv_sec (clock_gettime_MONOTONIC r) * 1000000000
           + tv_nsec (clock_gettime_MONOTONIC r)) false.
Proof.
  intros Hraw Hmono. split.
  - now apply seconds_plus_nanoseconds_fits.
  - now apply seconds_plus_nanoseconds_fits.
Qed.

Lemma clock_gettime_now_unscaled_witness :
  monotonic_raw.now sample_reads = Value 86400999999999 false /\
  monotonic.now sample_reads = Value 86401000000005 false.
Proof.
  apply (clock_gettime_now_unscaled sample_reads).
  - reflexivity.
  - reflexivity.
Defined.

(** C8 as stated fails one nanosecond past the 64-bit count: the normal
    [timespec] [(9223372036, 854775808)] stands for [2^63] nanoseconds, and
    both clocks return [- 2^63], the addition having overflowed. *)
Lemma clock_gettime_now_unscaled_counterexample :
  clock_gettime_MONOTONIC_RAW reads_past_2_63_ns
  = {| tv_sec := 9223372036; tv_nsec := 854775808 |} /\
  clock_gettime_MONOTONIC reads_past_2_63_ns
  = {| tv_sec := 9223372036; tv_nsec := 854775808 |} /\
  0 <= 854775808 < 1000000000 /\
  9223372036 * 1000000000 + 854775808 = 2 ^ 63 /\
  monotonic_raw.now reads_past_2_63_ns = Value (- 2 ^ 63) true /\
  monotonic.now reads_past_2_63_ns = Value (- 2 ^ 63) true /\
  value_of (monotonic_raw.now reads_past_2_63_ns)
  <> Some (9223372036 * 1000000000 + 854775808) /\
  value_of (monotonic.now reads_past_2_63_ns)
  <> Some (9223372036 * 1000000000 + 854775808).
Proof.
  repeat apply conj; try lia; vm_compute; first [reflexivity | discriminate].
Qed.

(** ** Negative counters *)

(** C10, as the code has it: C++ division truncates toward zero, so for
    [f > 0] and [d > 0] every run without overflow returns [c * d] divided
    by [f] with truncation toward zero, which for [c < 0] is the ceiling of
    [c * d / f] and not its floor; and whenever the run on [- c] does not
    overflow either, its result is the opposite one. *)
Theorem clock_scale_generic_odd (f c d v : Z) :
  0 < f -> 0 < d ->
  clock_scale_generic f c d = Value v false ->
  v = Z.quot (c * d) f /\
  (c < 0 -> v = - ((- (c * d)) / f)) /\
  (0 <= c -> v = c * d / f) /\
  (forall v', clock_scale_generic f (- c) d = Value v' false -> v' = - v).
Proof.
  intros Hf Hd H.
  apply clock_scale_generic_clean in H as (_ & _ & ->).
  rewrite scale_exact_quot by lia.
  repeat apply conj.
  - reflexivity.
  - intros Hc. rewrite <- (Z.opp_involutive (c * d)) at 1.
    rewrite Z.quot_opp_l by lia. f_equal.
    apply Z.quot_div_nonneg; nia.
  - intros Hc. apply Z.quot_div_nonneg; nia.
  - intros v' H'.
    apply clock_scale_generic_clean in H' as (_ & _ & ->).
    rewrite scale_exact_quot by lia.
    rewrite Z.mul_opp_l. apply Z.quot_opp_l. lia.
Qed.

Lemma clock_scale_generic_odd_witness :
  - 2 ^ 63 = Z.quot (- 2 ^ 54 * 1000000000) 1953125 /\
  -21 = - ((- (-15 * 10)) / 7) /\ 21 = - -21 /\ -15 * 10 / 7 = -22.
Proof.
  destruct (clock_scale_generic_odd 1953125 (- 2 ^ 54) 1000000000 (- 2 ^ 63))
    as (Hq & _); [lia | lia | reflexivity |].
  destruct (clock_scale_generic_odd 7 (-15) 10 (-21))
    as (_ & Hceil & _ & Hodd); [lia | lia | reflexivity |].
  repeat apply conj.
  - exact Hq.
  - apply Hceil. lia.
  - apply (Hodd 21). reflexivity.
  - reflexivity.
Defined.

(** C10 as stated fails where one of the two runs overflows.  With
    [f = 3] and [d = 2^62] the counter [-2] scales to -3074457345618258602
    without overflow, and the counter [2] scales to the same negative
    number, the product [2 * 2^62] being cut to 64 bits.  With the
    nanosecond denominator, [f = 1953125] and [c = 2^54] the run on [- c]
    returns [- 2^63] without overflow and the run on [c] overflows to the
    same value. *)
Lemma clock_scale_generic_odd_counterexample :
  (0 < 3 /\ 0 < 2 ^ 62 /\
   clock_scale_generic 3 (- 2) (2 ^ 62)
   = Value (-3074457345618258602) false /\
   clock_scale_generic 3 2 (2 ^ 62)
   = Value (-3074457345618258602) true /\
   -3074457345618258602 <> - -3074457345618258602 /\
   -3074457345618258602 <> Int64.wrap (- -3074457345618258602)) /\
  (0 < 1953125 /\ 0 < 1000000000 /\
   clock_scale_generic 1953125 (- 2 ^ 54) 1000000000
   = Value (- 2 ^ 63) false /\
   clock_scale_generic 1953125 (2 ^ 54) 1000000000
   = Value (- 2 ^ 63) true /\
   - 2 ^ 63 <> - - 2 ^ 63).
Proof.
  repeat apply conj; try lia; vm_compute; first [reflexivity | discriminate].
Qed.

(** * Further properties of the header *)

(** ** The scaling over the whole signed range *)

Lemma wrap_add_l (a b : Z) :
  Int64.wrap (Int64.wrap a + b) = Int64.wrap (a + b).
Proof.
  unfold Int64.wrap, Int64.modulus, Int64.half_modulus.
  replace ((a + 2 ^ 63) mod 2 ^ 64 - 2 ^ 63 + b + 2 ^ 63)
    with ((a + 2 ^ 63) mod 2 ^ 64 + b) by ring.
  rewrite Z.add_mod_idemp_l by lia.
  f_equal. f_equal. ring.
Qed.

Lemma wrap_idempotent (a : Z) : Int64.wrap (Int64.wrap a) = Int64.wrap a.
Proof. apply wrap_in_range, wrap_is_int64. Qed.

Lemma bind_fit (z : Z) (k : Z -> outcome Z) (b : Z) (o : bool) :
  k (Int64.wrap z) = Value b o ->
  bind (fit z) k = Value b (negb (Int64.in_range z) || o).
Proof. unfold fit. simpl. now intros ->. Qed.

Lemma quot_sign (m f : Z) :
  0 < f -> (0 <= m -> 0 <= Z.quot m f) /\ (m <= 0 -> Z.quot m f <= 0).
Proof.
  intros Hf. split; intros Hm.
  - apply Z.quot_pos; lia.
  - replace (Z.quot m f) with (- Z.quot (- m) f)
      by (rewrite Z.quot_opp_l by lia; lia).
    assert (0 <= Z.quot (- m) f) by (apply Z.quot_pos; lia). lia.
Qed.

Lemma quot_rem_signed (c f : Z) :
  0 < f ->
  c = f * Z.quot c f + Z.rem c f /\
  - f < Z.rem c f < f /\
  (0 <= c -> 0 <= Z.quot c f /\ 0 <= Z.rem c f) /\
  (c <= 0 -> Z.quot c f <= 0 /\ Z.rem c f <= 0).
Proof.
  intros Hf. pose proof (Z.quot_rem' c f) as Hc.
  pose proof (quot_sign c f Hf) as [Hq1 Hq2].
  destruct (Z.le_gt_cases 0 c) as [Hpos | Hneg].
  - pose proof (Z.rem_bound_pos c f Hpos Hf). repeat split; lia.
  - pose proof (Z.rem_bound_pos (- c) f ltac:(lia) Hf) as Hr.
    rewrite Z.rem_opp_l in Hr by lia. repeat split; lia.
Qed.

Section SignedCounter.

Variables f c d : Z.
Hypothesis Hf : 0 < f.
Hypothesis Hd : 0 <= d.
Hypothesis Hfd : (f - 1) * d <= Int64.max_signed.
Hypothesis Hc : Int64.in_range c = true.

Lemma remainder_product_fits : Int64.in_range (Z.rem c f * d) = true.
Proof.
  destruct (quot_rem_signed c f Hf) as (_ & Hr & _).
  apply in_range_iff. revert Hfd. int64_bounds. intros Hfd'. nia.
Qed.

Lemma part_fits : Int64.in_range (Z.quot (Z.rem c f * d) f) = true.
Proof. apply quot_in_range; [exact Hf | exact remainder_product_fits]. Qed.

Lemma whole_fits_when_exact_fits :
  Int64.in_range (scale_exact f c d) = true ->
  Int64.in_range (Z.quot c f * d) = true.
Proof.
  rewrite !in_range_iff. unfold scale_exact.
  destruct (quot_rem_signed c f Hf) as (_ & _ & Hpos & Hneg).
  pose proof (quot_sign (Z.rem c f * d) f Hf) as [Hp1 Hp2].
  int64_bounds.
  destruct (Z.le_gt_cases 0 c) as [H0 | H0]; intros H.
  - destruct (Hpos H0). assert (0 <= Z.rem c f * d) by nia.
    specialize (Hp1 ltac:(assumption)). nia.
  - destruct (Hneg ltac:(lia)). assert (Z.rem c f * d <= 0) by nia.
    specialize (Hp2 ltac:(assumption)). nia.
Qed.

(** Under the frequency assumption only the stores of [whole] and of the
    returned sum can overflow, and the run is the exact quotient stored
    into 64 bits. *)
Lemma clock_scale_generic_fit :
  clock_scale_generic f c d = fit (Z.quot (c * d) f).
Proof.
  assert (Hnz : f <> 0) by lia.
  pose proof (quot_in_range c f Hf Hc) as Hq.
  pose proof remainder_product_fits as Hm. pose proof part_fits as Hp.
  rewrite <- scale_exact_quot by assumption.
  unfold clock_scale_generic.
  rewrite div64_pos, (fit_exact _ Hq), bind_value by assumption.
  unfold mul64 at 1.
  rewrite (bind_fit _ _ (Int64.wrap (Int64.wrap (Z.quot c f * d)
                                    + Z.quot (Z.rem c f * d) f))
             (negb (Int64.in_range (Int64.wrap (Z.quot c f * d)
                                    + Z.quot (Z.rem c f * d) f)))).
  - rewrite wrap_add_l. fold (scale_exact f c d). unfold fit. f_equal.
    destruct (Int64.in_range (Z.quot c f * d)) eqn:Hw.
    + now rewrite (wrap_in_range _ Hw).
    + simpl. destruct (Int64.in_range (scale_exact f c d)) eqn:Hs;
        [|reflexivity].
      apply whole_fits_when_exact_fits in Hs. congruence.
  - rewrite rem64_pos, Hq by assumption. simpl negb. rewrite bind_value.
    unfold mul64. rewrite (fit_exact _ Hm), bind_value.
    rewrite div64_pos, (fit_exact _ Hp), bind_value by assumption.
    reflexivity.
Qed.

End SignedCounter.

(** X1: for a frequency [f > 0] with [(f - 1) * d] inside the signed 64-bit
    range, a denominator [d >= 0] and any [int64_t] counter of either sign,
    [clock_scale_generic] returns [c * d / f], truncated toward zero and
    stored into 64 bits: it overflows exactly when that quotient itself
    does not fit. *)
Theorem clock_scale_generic_overflows_only_with_result (f c d : Z) :
  0 < f -> 0 <= d -> (f - 1) * d <= Int64.max_signed ->
  Int64.in_range c = true ->
  clock_scale_generic f c d
  = Value (Int64.wrap (Z.quot (c * d) f))
          (negb (Int64.in_range (Z.quot (c * d) f))) /\
  clean (clock_scale_generic f c d) = Int64.in_range (Z.quot (c * d) f).
Proof.
  intros Hf Hd Hfd Hc.
  rewrite (clock_scale_generic_fit f c d Hf Hd Hfd Hc). unfold fit.
  split; [reflexivity|].
  simpl. now destruct (Int64.in_range (Z.quot (c * d) f)).
Qed.

Lemma clock_scale_generic_overflows_only_with_result_witness :
  clock_scale_generic 24000000 (-123456789) 1000000000
  = Value (-5144032875) false.
Proof.
  destruct (clock_scale_generic_overflows_only_with_result
              24000000 (-123456789) 1000000000) as [H _];
    [lia | lia | by_computation | reflexivity |].
  exact H.
Defined.

(** X2: under the same assumption the split computation is never worse
    than the naive [(_counter * _period_den) / _freq] of the source comment:
    where the naive form does not overflow both agree, and where the
    product [c * d] leaves the 64-bit range while the quotient fits, the
    naive form overflows and the split computation still returns the exact
    quotient. *)
Theorem clock_scale_generic_improves_naive (f c d : Z) :
  0 < f -> 0 <= d -> (f - 1) * d <= Int64.max_signed ->
  Int64.in_range c = true ->
  (clean (clock_scale_naive f c d) = true ->
   clock_scale_generic f c d = clock_scale_naive f c d) /\
  (Int64.in_range (c * d) = false ->
   Int64.in_range (Z.quot (c * d) f) = true ->
   clean (clock_scale_naive f c d) = false /\
   clock_scale_generic f c d = Value (Z.quot (c * d) f) false).
Proof.
  intros Hf Hd Hfd Hc.
  rewrite (clock_scale_generic_fit f c d Hf Hd Hfd Hc).
  assert (Hnz : f <> 0) by lia.
  unfold clock_scale_naive, mul64.
  destruct (Int64.in_range (c * d)) eqn:Hp.
  - split; [|discriminate]. intros _.
    rewrite (fit_exact _ Hp), bind_value. now rewrite div64_pos.
  - split.
    + unfold fit at 1. simpl. rewrite Hp.
      now destruct (div64 (Int64.wrap (c * d)) f).
    + intros _ Hq. split; [|now apply fit_exact].
      unfold fit at 1. simpl. rewrite Hp.
      now destruct (div64 (Int64.wrap (c * d)) f).
Qed.

Lemma clock_scale_generic_improves_naive_witness :
  clean (clock_scale_naive 10000000 10000000000000000 1000000000) = false /\
  clock_scale_generic 10000000 10000000000000000 1000000000
  = Value 1000000000000000000 false.
Proof.
  destruct (clock_scale_generic_improves_naive
              10000000 10000000000000000 1000000000) as [_ H];
    [lia | lia | by_computation | reflexivity |].
  apply H; reflexivity.
Defined.

(** X3: a counter of exactly [k] periods of the frequency scales to
    [k * d] with no rounding, at every positive frequency (also beyond the
    frequency assumption) and for [k] of either sign; the only store that
    can overflow is that of [k * d]. *)
Theorem clock_scale_generic_whole_periods (f k d : Z) :
  0 < f -> Int64.in_range (k * f) = true ->
  clock_scale_generic f (k * f) d
  = Value (Int64.wrap (k * d)) (negb (Int64.in_range (k * d))).
Proof.
  intros Hf Hc. assert (Hnz : f <> 0) by lia.
  assert (Hk : Int64.in_range k = true).
  { pose proof (quot_in_range (k * f) f Hf Hc) as H.
    now rewrite Z.quot_mul in H. }
  unfold clock_scale_generic.
  rewrite div64_pos, Z.quot_mul, (fit_exact _ Hk), bind_value
    by assumption.
  unfold mul64 at 1.
  rewrite (bind_fit _ _ (Int64.wrap (k * d)) false).
  - now rewrite orb_false_r.
  - rewrite rem64_pos, Z.rem_mul, Z.quot_mul, Hk by assumption.
    simpl negb. rewrite bind_value. unfold mul64. simpl (0 * d).
    rewrite (fit_exact 0), bind_value by reflexivity.
    rewrite div64_pos by assumption.
    rewrite (Z.quot_0_l f Hnz), (fit_exact 0), bind_value by reflexivity.
    unfold add64, fit. rewrite Z.add_0_r, wrap_idempotent, wrap_is_int64.
    reflexivity.
Qed.

Lemma clock_scale_generic_whole_periods_witness :
  clock_scale_generic 10000000000 (-30000000000) 1000000000
  = Value (-3000000000) false.
Proof.
  apply (clock_scale_generic_whole_periods 10000000000 (-3) 1000000000).
  - lia.
  - reflexivity.
Defined.

(** ** Durations *)

Lemma div_add_within_one (x y f : Z) :
  0 < f -> x / f + y / f <= (x + y) / f <= x / f + y / f + 1.
Proof.
  intros Hf.
  pose proof (Z.div_mod x f ltac:(lia)) as Hx.
  pose proof (Z.div_mod y f ltac:(lia)) as Hy.
  pose proof (Z.mod_pos_bound x f Hf). pose proof (Z.mod_pos_bound y f Hf).
  split.
  - apply Z.div_le_lower_bound; [lia | nia].
  - assert ((x + y) / f < x / f + y / f + 2); [|lia].
    apply Z.div_lt_upper_bound; [lia | nia].
Qed.

(** X4: the difference of two instants is the scaled difference of the
    counters, up to one nanosecond: for counters [0 <= c1 <= c2] scaled
    without overflow to [t1] and [t2],
    [floor ((c2 - c1) * d / f) <= t2 - t1 <= floor ((c2 - c1) * d / f) + 1]. *)
Theorem clock_scale_generic_elapsed (f d c1 c2 t1 t2 : Z) :
  0 < f -> 0 <= d -> 0 <= c1 <= c2 ->
  clock_scale_generic f c1 d = Value t1 false ->
  clock_scale_generic f c2 d = Value t2 false ->
  (c2 - c1) * d / f <= t2 - t1 <= (c2 - c1) * d / f + 1.
Proof.
  intros Hf Hd Hc H1 H2.
  apply clock_scale_generic_clean in H1 as (_ & _ & ->).
  apply clock_scale_generic_clean in H2 as (_ & _ & ->).
  rewrite !scale_exact_nonneg by lia.
  pose proof (div_add_within_one (c1 * d) ((c2 - c1) * d) f Hf) as H.
  replace (c1 * d + (c2 - c1) * d) with (c2 * d) in H by ring. lia.
Qed.

Lemma clock_scale_generic_elapsed_witness :
  7 * 1000000000 / 24000000 <= 583 - 291
  <= 7 * 1000000000 / 24000000 + 1.
Proof.
  apply (clock_scale_generic_elapsed 24000000 1000000000 7 14 291 583).
  - lia.
  - lia.
  - lia.
  - reflexivity.
  - reflexivity.
Defined.

(** X5: with the nanosecond denominator the scaling cannot overflow before
    the counter has run for 9223372036 seconds (292 years): for every
    frequency [0 < f <= 9223372037] and [int64_t] counter [c >= 0] with
    [c / f < 9223372036] the run is free of overflow and returns
    [floor (c * 10^9 / f)]. *)
Theorem clock_scale_generic_292_years (f c : Z) :
  0 < f <= 9223372037 -> 0 <= c < 2 ^ 63 -> c / f < 9223372036 ->
  clock_scale_generic f c period_den = Value (c * 1000000000 / f) false.
Proof.
  intros Hf Hc Hup. unfold period_den.
  pose proof (Z.div_mod c f ltac:(lia)) as Hdm.
  pose proof (Z.mod_pos_bound c f ltac:(lia)) as Hm.
  assert (Hlt : c * 1000000000 / f < 9223372036000000000).
  { apply Z.div_lt_upper_bound; [lia | nia]. }
  rewrite clock_scale_generic_run.
  - now rewrite scale_exact_nonneg by lia.
  - lia.
  - apply all_fit_nonneg; int64_bounds; lia.
Qed.

Lemma clock_scale_generic_292_years_witness :
  clock_scale_generic 3000000000 9000000000000000000 period_den
  = Value 3000000000000000000 false.
Proof.
  apply (clock_scale_generic_292_years 3000000000 9000000000000000000).
  - lia.
  - lia.
  - by_computation.
Defined.

(** ** The clocks at their usual frequencies *)

(** X6: on a 10 MHz performance counter one tick is exactly 100
    nanoseconds: for every [int64_t] counter, of either sign,
    [clock_scale_10MHz] with the nanosecond denominator, the dispatch and
    [win32_performance_counter::now()] return [100 * counter] stored into 64
    bits, with no rounding, and overflow exactly when [100 * counter] does
    not fit. *)
Theorem win32_now_10MHz (r : reads) :
  query_performance_frequency r = 10000000 ->
  Int64.in_range (query_performance_counter r) = true ->
  let ticks := query_performance_counter r in
  clock_scale_10MHz ticks period_den
  = Value (Int64.wrap (100 * ticks)) (negb (Int64.in_range (100 * ticks))) /\
  qpc_scale_dispatch 10000000 ticks = clock_scale_10MHz ticks period_den /\
  win32_performance_counter.now r = clock_scale_10MHz ticks period_den.
Proof.
  intros Hfreq Hc ticks.
  repeat apply conj.
  - unfold clock_scale_10MHz, period_den.
    rewrite clock_scale_generic_fit; try lia; try assumption;
      [| by_computation].
    replace (ticks * 1000000000) with (100 * ticks * 10000000) by ring.
    now rewrite Z.quot_mul by lia.
  - reflexivity.
  - unfold win32_performance_counter.now. now rewrite Hfreq.
Qed.

Lemma win32_now_10MHz_witness :
  win32_performance_counter.now sample_reads = Value 12345678900 false.
Proof.
  destruct (win32_now_10MHz sample_reads) as (H1 & _ & H3);
    [reflexivity | reflexivity |].
  rewrite H3. exact H1.
Defined.

(** X7: on a 24 MHz counter (the ARM64 generic timer) the nanosecond value
    is [125 * counter / 3] truncated toward zero: [clock_scale_24MHz] with
    the nanosecond denominator returns it stored into 64 bits for every
    [int64_t] counter, and [cpu_clock::now()] returns it for every counter
    register value below [2^63] when the frequency register reads
    24000000. *)
Theorem cpu_clock_now_24MHz (r : reads) :
  read_cpu_clock_freq r = 24000000 ->
  0 <= read_cpu_clock r < 2 ^ 63 ->
  let ticks := read_cpu_clock r in
  clock_scale_24MHz ticks period_den
  = Value (Int64.wrap (Z.quot (125 * ticks) 3))
          (negb (Int64.in_range (Z.quot (125 * ticks) 3))) /\
  cpu_clock.now r = clock_scale_24MHz ticks period_den.
Proof.
  intros Hfreq Hc ticks. split.
  - unfold clock_scale_24MHz, period_den.
    rewrite clock_scale_generic_fit; try lia;
      [| by_computation | apply in_range_bounds; subst ticks; lia].
    replace (ticks * 1000000000) with (125 * ticks * 8000000) by ring.
    replace 24000000 with (3 * 8000000) by reflexivity.
    now rewrite Z.quot_mul_cancel_r by lia.
  - unfold cpu_clock.now. rewrite Hfreq.
    rewrite (of_unsigned_small (read_cpu_clock r)) by assumption.
    reflexivity.
Qed.

Lemma cpu_clock_now_24MHz_witness :
  cpu_clock.now sample_reads = Value 41152263375 false.
Proof.
  destruct (cpu_clock_now_24MHz sample_reads) as (H1 & H2);
    [reflexivity | simpl; lia |].
  rewrite H2. exact H1.
Defined.

(** X8: the counter register is unsigned and [cpu_clock::now()] stores it
    in an [int64_t]: a register value in [[2^63, 2^64)] is scaled as the
    negative counter [value - 2^64].  For a frequency register that
    satisfies the frequency assumption, [now()] is then
    [t = (value - 2^64) * 10^9 / f], truncated toward zero and stored into
    64 bits, and [t] is never positive: the clock has jumped back before
    its origin. *)
Theorem cpu_clock_now_after_2_63 (r : reads) :
  0 < read_cpu_clock_freq r <= 9223372037 ->
  2 ^ 63 <= read_cpu_clock r < 2 ^ 64 ->
  let t := Z.quot ((read_cpu_clock r - 2 ^ 64) * 1000000000)
                  (read_cpu_clock_freq r) in
  cpu_clock.now r = Value (Int64.wrap t) (negb (Int64.in_range t)) /\
  t <= 0.
Proof.
  intros Hf Hc t.
  pose proof (quot_sign ((read_cpu_clock r - 2 ^ 64) * 1000000000)
                (read_cpu_clock_freq r) ltac:(lia)) as [_ Hneg].
  specialize (Hneg ltac:(lia)). fold t in Hneg.
  split; [|exact Hneg].
  unfold cpu_clock.now.
  rewrite (of_unsigned_small (read_cpu_clock_freq r)) by lia.
  rewrite (of_unsigned_large (read_cpu_clock r)) by assumption.
  rewrite cpu_clock_scale_dispatch_generic. unfold period_den.
  rewrite clock_scale_generic_fit;
    [| lia | lia | int64_bounds; lia | apply in_range_bounds; lia].
  reflexivity.
Qed.

Lemma cpu_clock_now_after_2_63_witness :
  cpu_clock.now late_reads = Value (-1000000000) false.
Proof.
  destruct (cpu_clock_now_after_2_63 late_reads) as [H _];
    [simpl; lia | simpl; lia |].
  exact H.
Defined.

(** ** Faults of [now()] *)








(** ** The clock_gettime clocks keep the whole timespec *)

(** X10: [monotonic_raw::now()] and [monotonic::now()] lose nothing of a
    [timespec] the operating system returns: the seconds are the instant
    divided by [10^9] and [tv_nsec] is the remainder, so two calls return
    the same instant only for the same [timespec]. *)
Theorem clock_gettime_now_roundtrip (r r' : reads) (t : Z) :
  os_timespec (clock_gettime_MONOTONIC_RAW r) ->
  os_timespec (clock_gettime_MONOTONIC r) ->
  os_timespec (clock_gettime_MONOTONIC_RAW r') ->
  os_timespec (clock_gettime_MONOTONIC r') ->
  (monotonic_raw.now r = Value t false ->
   clock_gettime_MONOTONIC_RAW r
   = {| tv_sec := t / 1000000000; tv_nsec := t mod 1000000000 |}) /\
  (monotonic.now r = Value t false ->
   clock_gettime_MONOTONIC r
   = {| tv_sec := t / 1000000000; tv_nsec := t mod 1000000000 |}) /\
  (monotonic_raw.now r = monotonic_raw.now r' ->
   clock_gettime_MONOTONIC_RAW r = clock_gettime_MONOTONIC_RAW r') /\
  (monotonic.now r = monotonic.now r' ->
   clock_gettime_MONOTONIC r = clock_gettime_MONOTONIC r').
Proof.
  assert (Hdec : forall ts v, os_timespec ts ->
            seconds_plus_nanoseconds (tv_sec ts) (tv_nsec ts) = Value v false ->
            ts = {| tv_sec := v / 1000000000; tv_nsec := v mod 1000000000 |}).
  { intros [s n] v (Hs & Hn & _) H. simpl in *.
    apply seconds_plus_nanoseconds_clean in H. subst v.
    rewrite (Z.add_comm (s * 1000000000)).
    rewrite Z.div_add, Z.mod_add, Z.div_small, Z.mod_small by lia.
    reflexivity. }
  assert (Hinj : forall a b, os_timespec a -> os_timespec b ->
            seconds_plus_nanoseconds (tv_sec a) (tv_nsec a)
            = seconds_plus_nanoseconds (tv_sec b) (tv_nsec b) -> a = b).
  { intros a b Ha Hb H.
    pose proof (seconds_plus_nanoseconds_exact a Ha) as Ea.
    pose proof (seconds_plus_nanoseconds_exact b Hb) as Eb.
    rewrite (Hdec a _ Ha Ea), (Hdec b _ Hb Eb).
    rewrite Ea, Eb in H. injection H as ->. reflexivity. }
  intros Hraw Hmono Hraw' Hmono'.
  unfold monotonic_raw.now, monotonic.now.
  repeat apply conj; auto.
Qed.

Lemma clock_gettime_now_roundtrip_witness :
  clock_gettime_MONOTONIC_RAW sample_reads
  = {| tv_sec := 86400999999999 / 1000000000;
       tv_nsec := 86400999999999 mod 1000000000 |}.
Proof.
  destruct (clock_gettime_now_roundtrip sample_reads sample_reads
              86400999999999) as (H & _);
    try (unfold os_timespec; simpl; int64_bounds; lia).
  apply H. reflexivity.
Defined.

(** ** The conditional compilation of the header *)

(** X11: whatever the configuration, [high_res_time] names a clock whose
    struct the same configuration compiles: each [timers::] struct is
    selected only under the guard that defines it.  On a target, when
    [timers::cpu_clock] is selected the readers [read_cpu_clock] and
    [read_cpu_clock_freq] its [now()] calls are defined. *)
Theorem high_res_time_is_defined :
  (forall fb kf raw mono win,
      struct_defined (high_res_time fb kf raw mono win) kf raw mono win
      = true) /\
  (forall t,
      struct_defined (high_res_time_of t)
        (TRACY_HAVE_CPU_CLOCK_KNOWN_FREQUENCY (preprocess t))
        (have_CLOCK_MONOTONIC_RAW t) (have_CLOCK_MONOTONIC t) (have_WIN32 t)
      = true) /\
  (forall t,
      high_res_time_of t = timers_cpu_clock -> cpu_clock_readers t <> []).
Proof.
  assert (H : forall fb kf raw mono win,
             struct_defined (high_res_time fb kf raw mono win)
               kf raw mono win = true)
    by (intros [|] [|] [|] [|] [|]; reflexivity).
  repeat apply conj.
  - exact H.
  - intros t. apply H.
  - intros [ma aa cl fb raw mono win].
    unfold high_res_time_of, cpu_clock_readers, preprocess,
      gnu_aarch64_block, msvc_arm64_block, gnu_aarch64_readers,
      msvc_arm64_readers; simpl.
    destruct ma, aa, cl, fb, raw, mono, win; simpl; discriminate.
Qed.

(** X12: the readers are defined at most once, so the two blocks never
    clash: with [_M_ARM64] the [_ReadStatusReg] intrinsic is used, also
    under clang, where the second block is skipped; the [mrs] inline
    assembly is used only with [__aarch64__] and without [_M_ARM64]; and
    [TRACY_HAVE_CPU_CLOCK_KNOWN_FREQUENCY] is defined exactly when a reader
    is. *)
Theorem cpu_clock_readers_unique (t : target) :
  cpu_clock_readers t
  = (if _M_ARM64 t then [ReadStatusReg_intrinsic]
     else if __aarch64__ t then [mrs_inline_asm]
     else []) /\
  (length (cpu_clock_readers t) <= 1)%nat /\
  TRACY_HAVE_CPU_CLOCK_KNOWN_FREQUENCY (preprocess t)
  = negb (Nat.eqb (length (cpu_clock_readers t)) 0).
Proof.
  destruct t as [ma aa cl fb raw mono win].
  unfold cpu_clock_readers, preprocess, gnu_aarch64_block, msvc_arm64_block,
    gnu_aarch64_readers, msvc_arm64_readers; simpl.
  destruct ma, aa, cl; simpl; repeat split; lia.
Qed.

(** X13: [timers::cpu_clock] becomes the high-resolution clock exactly on
    the targets that define [_M_ARM64] or [__aarch64__] without the
    fallback override, whichever operating-system clocks exist and
    whether or not the compiler is clang. *)
Theorem cpu_clock_selected_iff (t : target) :
  high_res_time_of t = timers_cpu_clock
  <-> have_TRACY_TIMER_FALLBACK t = false
      /\ _M_ARM64 t || __aarch64__ t = true.
Proof.
  unfold high_res_time_of. rewrite preprocess_known_frequency.
  destruct (have_TRACY_TIMER_FALLBACK t), (_M_ARM64 t), (__aarch64__ t),
    (have_CLOCK_MONOTONIC_RAW t), (have_CLOCK_MONOTONIC t), (have_WIN32 t);
    simpl; split; intros H; try discriminate; try (destruct H; discriminate);
    auto.
Qed.

(** ** YieldThread *)

(** X14: in every configuration the statement of [YieldThread] uses only
    what the header's first conditional provided: [_mm_pause] comes with
    [<emmintrin.h>], [__yield] with its intrinsic pragma and
    [std::this_thread::yield] with [<thread>].  The operating-system yield
    is the last resort, used exactly when the target has neither SSE2 nor
    an ARM MSVC nor [__aarch64__]; with the [isb] instruction [<thread>] is
    included and not used. *)
Theorem YieldThread_provided (m : TracyYield.macros) :
  match TracyYield.needs (TracyYield.YieldThread m) with
  | Some p => TracyYield.preamble m = p
  | None => TracyYield.preamble m = TracyYield.include_thread
  end /\
  (TracyYield.YieldThread m = TracyYield.this_thread_yield
   <-> TracyYield.sse2 m = false /\ TracyYield.msvc_arm m = false
       /\ TracyYield.__aarch64__ m = false) /\
  (TracyYield.YieldThread m = TracyYield.isb_asm
   <-> TracyYield.sse2 m = false /\ TracyYield.msvc_arm m = false
       /\ TracyYield.__aarch64__ m = true).
Proof.
  unfold TracyYield.YieldThread, TracyYield.preamble.
  destruct (TracyYield.sse2 m), (TracyYield.msvc_arm m),
    (TracyYield.__aarch64__ m); simpl;
    repeat split; intros; try discriminate; try tauto;
    repeat match goal with H : _ /\ _ |- _ => destruct H end;
    try discriminate.
Qed.

(** ** Resolution *)

(** X15: when the frequency does not exceed the denominator (a counter of
    at most 1 GHz for nanoseconds) distinct counters never share an
    instant: for [0 < f <= d] and counters [0 <= c1 < c2] scaled without
    overflow, [t1 < t2]. *)
Theorem clock_scale_generic_strictly_monotone (f d c1 c2 t1 t2 : Z) :
  0 < f <= d -> 0 <= c1 < c2 ->
  clock_scale_generic f c1 d = Value t1 false ->
  clock_scale_generic f c2 d = Value t2 false ->
  t1 < t2.
Proof.
  intros Hf Hc H1 H2.
  apply clock_scale_generic_clean in H1 as (_ & _ & ->).
  apply clock_scale_generic_clean in H2 as (_ & _ & ->).
  rewrite !scale_exact_nonneg by lia.
  assert (H : c1 * d / f + 1 <= c2 * d / f); [|lia].
  rewrite <- Z.div_add by lia.
  apply Z.div_le_mono; [lia | nia].
Qed.

Lemma clock_scale_generic_strictly_monotone_witness : 291 < 333.
Proof.
  apply (clock_scale_generic_strictly_monotone
           24000000 1000000000 7 8 291 333).
  - lia.
  - lia.
  - reflexivity.
  - reflexivity.
Defined.
